(** * FastAPI address book: a model of [main.py] and its verified properties

    The service keeps named geographic points in one SQLite table and
    answers a proximity query by scanning the table with geopy's geodesic
    distance.  The four request handlers of [main.py] are embedded below as
    state-passing functions over the table; the libraries the handlers call
    (SQLAlchemy on SQLite, geopy) are modelled by the few operations the
    handlers use, with the errors and conversions those operations have.

    Coordinates are IEEE 754 binary64 numbers, as Python's [float]: the
    kernel's primitive floats with their comparisons. *)

From Stdlib Require Import ZArith NArith Lia.
From Stdlib Require Import Floats.
From stdpp Require Import base option list sorting strings.

Local Open Scope Z_scope.

(* ================================================================== *)
(** * Data model *)
(* ================================================================== *)

(** Python's [str]: a sequence of code points, lone surrogates included. *)
Record str : Type := Str { codepoints : list N }.

(** Literals: one code point per byte of the literal (ASCII text). *)
Definition str_of_bytes (bytes : list Byte.byte) : str :=
  Str (map (fun b => N.of_nat (Byte.to_nat b)) bytes).

Definition bytes_of_str (s : str) : option (list Byte.byte) :=
  mapM Byte.of_N (codepoints s).

Declare Scope str_scope.
Delimit Scope str_scope with str.
Bind Scope str_scope with str.
String Notation str str_of_bytes bytes_of_str : str_scope.

(** [class Address(Base)]: an ORM object, and a row of the table
    [addresses].  The columns [latitude] and [longitude] are nullable:
    [None] is SQL's NULL, Python's [None]. *)
Record Address : Type := mkAddress {
  id : Z;
  name : str;
  latitude : option float;
  longitude : option float
}.

(** [class AddressCreate(BaseModel)]: every field is required. *)
Record AddressCreate : Type := mkAddressCreate {
  create_name : str;
  create_latitude : float;
  create_longitude : float
}.

(** [class AddressUpdate(BaseModel)]: the same three required fields. *)
Record AddressUpdate : Type := mkAddressUpdate {
  update_name : str;
  update_latitude : float;
  update_longitude : float
}.

(** An entry of the dictionary [model_dump()] returns: the key with its
    value, [None] standing for Python's [None]. *)
Inductive item : Type :=
  | item_name (value : option str)
  | item_latitude (value : option float)
  | item_longitude (value : option float).

(** The exceptions a handler can end with. *)
Inductive exception : Type :=
  | HTTPException (status_code : Z) (detail : string)
  | ValueError
  | OverflowError
  | UnicodeEncodeError
  | InvalidRequestError.

(** What a call yields: a value, or a raised exception. *)
Inductive response (A : Type) : Type :=
  | Ok (a : A)
  | Raise (e : exception).
Arguments Ok {A} a.
Arguments Raise {A} e.

(** The table [addresses], in scan order (ascending rowid). *)
Definition table : Type := list Address.

(** A handler runs against the table and leaves a table behind. *)
Definition endpoint (A : Type) : Type := table -> response A * table.

(** A point as the handlers build it: a tuple [(latitude, longitude)] of
    two Python values, each a float or [None]. *)
Definition location : Type := (option float * option float)%type.

Definition address_location (address : Address) : location :=
  (latitude address, longitude address).

Definition ids (db : table) : list Z := map id db.

(** [==] on two Python values that are floats or [None]. *)
Definition value_eqb (a b : option float) : bool :=
  match a, b with
  | Some x, Some y => (x =? y)%float
  | None, None => true
  | _, _ => false
  end.

(** [==] on two coordinate tuples, as Python compares them. *)
Definition location_eqb (a b : location) : bool :=
  value_eqb a.1 b.1 && value_eqb a.2 b.2.

(* ================================================================== *)
(** * The session: SQLAlchemy over SQLite *)
(* ================================================================== *)

Module Session.

(** Binding a Python [int] to a statement: sqlite3 raises [OverflowError]
    for an integer outside the signed 64-bit range. *)
Definition fits_int64 (i : Z) : bool :=
  (- 2 ^ 63 <=? i) && (i <=? 2 ^ 63 - 1).

(** Binding a Python [str]: it is encoded as UTF-8, which has no encoding
    for a surrogate code point (U+D800 to U+DFFF); sqlite3 then raises
    [UnicodeEncodeError]. *)
Definition encodable (s : str) : bool :=
  forallb (fun c => negb ((0xD800 <=? c)%N && (c <=? 0xDFFF)%N)) (codepoints s).

(** What a REAL column gives back for a bound Python [float]: SQLite
    stores a NaN as NULL, and keeps a real number without fractional part
    as an integer, which turns -0.0 into 0.0 and changes no other value. *)
Definition stored_real (x : float) : option float :=
  if is_nan x then None else Some (if (x =? 0)%float then 0%float else x).

(** The same for an attribute that may be [None]. *)
Definition stored_value (v : option float) : option float :=
  match v with
  | Some x => stored_real x
  | None => None
  end.

(** The rowid SQLite gives a row inserted without one.  [id] is declared
    [Column(Integer, primary_key=True)] with no [sqlite_autoincrement], so
    the column is an alias of the rowid and carries no AUTOINCREMENT
    counter: the new rowid is one more than the largest rowid in the table
    at this moment, and 1 in an empty table.  (The table holds fewer than
    2^63 rows; SQLite's random choice at the largest 64-bit rowid is not
    modelled.) *)
Definition next_rowid (db : table) : Z :=
  match ids db with
  | [] => 1
  | i :: rest => 1 + foldl Z.max i rest
  end.

(** SELECT ... FROM addresses WHERE id = ? LIMIT 1, once the key is bound. *)
Fixpoint first_row (key : Z) (db : table) : option Address :=
  match db with
  | [] => None
  | row :: rest =>
      if id row =? key then Some row else first_row key rest
  end.

(** [db.query(Address).filter(Address.id == address_id).first()]: the
    object or [None], or [OverflowError] when [address_id] cannot be
    bound. *)
Definition query_first (address_id : Z) (db : table)
  : response (option Address) :=
  if fits_int64 address_id then Ok (first_row address_id db)
  else Raise OverflowError.

(** [db.query(Address).all()] *)
Definition query_all (db : table) : list Address := db.

(** [db.add(obj); db.commit()]: INSERT with the rowid chosen by SQLite.
    Returns the key together with the table; when the name cannot be
    bound the INSERT raises and nothing is stored. *)
Definition add_commit (address : AddressCreate) (db : table)
  : response (Z * table) :=
  if encodable (create_name address) then
    let key := next_rowid db in
    Ok (key, db ++ [mkAddress key (create_name address)
                              (stored_real (create_latitude address))
                              (stored_real (create_longitude address))])
  else Raise UnicodeEncodeError.

(** UPDATE addresses SET name=?, latitude=?, longitude=? WHERE id = obj.id *)
Definition update_rows (obj : Address) (db : table) : table :=
  map (fun row =>
         if id row =? id obj
         then mkAddress (id row) (name obj)
                        (stored_value (latitude obj))
                        (stored_value (longitude obj))
         else row) db.

(** [db.commit()] after attribute assignments on [obj]: the UPDATE above;
    when the name cannot be bound it raises and nothing is stored. *)
Definition update_commit (obj : Address) (db : table) : response table :=
  if encodable (name obj) then Ok (update_rows obj db)
  else Raise UnicodeEncodeError.

(** [db.delete(obj); db.commit()]: DELETE FROM addresses WHERE id = obj.id *)
Definition delete_commit (obj : Address) (db : table) : table :=
  List.filter (fun row => negb (id row =? id obj)) db.

(** [db.refresh(obj)]: reload the row with this key; SQLAlchemy raises
    [InvalidRequestError] when the row is gone. *)
Definition refresh (key : Z) (db : table) : response Address :=
  match first_row key db with
  | Some row => Ok row
  | None => Raise InvalidRequestError
  end.

End Session.

(* ================================================================== *)
(** * The request handlers of [main.py] *)
(* ================================================================== *)

(** [raise HTTPException(status_code=404, detail="Address not found")] *)
Definition NotFound : exception := HTTPException 404 "Address not found".

(** [address_update.model_dump().items()], in field order. *)
Definition model_dump (address_update : AddressUpdate) : list item :=
  [ item_name (Some (update_name address_update));
    item_latitude (Some (update_latitude address_update));
    item_longitude (Some (update_longitude address_update)) ].

(** [value is not None] *)
Definition is_not_None (entry : item) : bool :=
  match entry with
  | item_name (Some _) | item_latitude (Some _) | item_longitude (Some _) => true
  | item_name None | item_latitude None | item_longitude None => false
  end.

(** The body of the loop of [update_address]:
    [if value is not None: setattr(db_address, field, value)]. *)
Definition assign_field (db_address : Address) (entry : item) : Address :=
  match entry with
  | item_name (Some value) =>
      mkAddress (id db_address) value (latitude db_address) (longitude db_address)
  | item_latitude (Some value) =>
      mkAddress (id db_address) (name db_address) (Some value) (longitude db_address)
  | item_longitude (Some value) =>
      mkAddress (id db_address) (name db_address) (latitude db_address) (Some value)
  | item_name None | item_latitude None | item_longitude None => db_address
  end.

(** [for field, value in address_update.model_dump().items(): ...] *)
Definition assign_fields (items : list item) (db_address : Address) : Address :=
  foldl assign_field db_address items.

(** [POST /addresses/] *)
Definition create_address (address : AddressCreate) : endpoint Address :=
  fun db =>
    match Session.add_commit address db with
    | Raise e => (Raise e, db)
    | Ok (key, db') => (Session.refresh key db', db')
    end.

(** The row [create_address] inserts: the payload, as stored, under the
    new rowid. *)
Definition created_row (address : AddressCreate) (db : table) : Address :=
  mkAddress (Session.next_rowid db) (create_name address)
            (Session.stored_real (create_latitude address))
            (Session.stored_real (create_longitude address)).

(** The row [update_address] leaves under [address_id]: the payload, as
    stored. *)
Definition updated_row (address_id : Z) (address_update : AddressUpdate)
  : Address :=
  mkAddress address_id (update_name address_update)
            (Session.stored_real (update_latitude address_update))
            (Session.stored_real (update_longitude address_update)).

(** The object [update_address] holds after its loop over a payload. *)
Definition assigned_object (address_id : Z) (address_update : AddressUpdate)
  : Address :=
  mkAddress address_id (update_name address_update)
            (Some (update_latitude address_update))
            (Some (update_longitude address_update)).

(** [PUT /addresses/{address_id}] *)
Definition update_address (address_id : Z) (address_update : AddressUpdate)
  : endpoint Address :=
  fun db =>
    match Session.query_first address_id db with
    | Raise e => (Raise e, db)
    | Ok None => (Raise NotFound, db)
    | Ok (Some db_address) =>
        let db_address := assign_fields (model_dump address_update) db_address in
        match Session.update_commit db_address db with
        | Raise e => (Raise e, db)
        | Ok db' => (Session.refresh (id db_address) db', db')
        end
    end.

(** [DELETE /addresses/{address_id}] *)
Definition delete_address (address_id : Z) : endpoint Address :=
  fun db =>
    match Session.query_first address_id db with
    | Raise e => (Raise e, db)
    | Ok None => (Raise NotFound, db)
    | Ok (Some db_address) =>
        (Ok db_address, Session.delete_commit db_address db)
    end.

Section Proximity.

(** [geodesic(a, b).kilometers] of geopy, which is not part of this
    repository: [None] when the call raises. *)
Variable geodesic_kilometers : location -> location -> option float.

(** The loop of [get_addresses_within_distance]; [within_distance] is the
    list built so far. *)
Fixpoint scan (location : location) (distance : float)
    (addresses within_distance : list Address) : response (list Address) :=
  match addresses with
  | [] => Ok within_distance
  | address :: rest =>
      match geodesic_kilometers location (address_location address) with
      | None => Raise ValueError
      | Some kilometers =>
          scan location distance rest
            (if (kilometers <=? distance)%float
             then within_distance ++ [address]
             else within_distance)
      end
  end.

(** [GET /addresses/distance/] *)
Definition get_addresses_within_distance (latitude longitude distance : float)
  : endpoint (list Address) :=
  fun db =>
    (scan (Some latitude, Some longitude) distance (Session.query_all db) [], db).

(** The test of the loop on one record, when the distance is defined. *)
Definition within (location : location) (distance : float)
    (address : Address) : bool :=
  match geodesic_kilometers location (address_location address) with
  | Some kilometers => (kilometers <=? distance)%float
  | None => false
  end.

End Proximity.

(* ================================================================== *)
(** * The update the specification describes *)
(* ================================================================== *)

(** The full-replace update of the specification: look the record up by
    [id], fail with NotFound if absent, otherwise overwrite name, latitude
    and longitude unconditionally and return the updated record.  The
    lookup and the write are the session's. *)
Definition update_overwrite (address_id : Z) (address_update : AddressUpdate)
  : endpoint Address :=
  fun db =>
    match Session.query_first address_id db with
    | Raise e => (Raise e, db)
    | Ok None => (Raise NotFound, db)
    | Ok (Some db_address) =>
        let updated := assigned_object (id db_address) address_update in
        match Session.update_commit updated db with
        | Raise e => (Raise e, db)
        | Ok db' => (Ok (updated_row (id db_address) address_update), db')
        end
    end.

(* ================================================================== *)
(** * Histories of the store *)
(* ================================================================== *)

(** A mutating request to the service. *)
Inductive request : Type :=
  | POST (address : AddressCreate)
  | PUT (address_id : Z) (address_update : AddressUpdate)
  | DELETE (address_id : Z).

(** The table a request leaves behind. *)
Definition serve (req : request) (db : table) : table :=
  match req with
  | POST address => (create_address address db).2
  | PUT address_id address_update => (update_address address_id address_update db).2
  | DELETE address_id => (delete_address address_id db).2
  end.

(** The tables the service can be in, starting from the empty table that
    [Base.metadata.create_all] creates. *)
Inductive reachable : table -> Prop :=
  | reachable_empty : reachable []
  | reachable_serve (req : request) (db : table) :
      reachable db -> reachable (serve req db).

(** Every id of the table is a signed 64-bit integer, as in every table
    SQLite holds. *)
Definition int64_ids (db : table) : Prop :=
  Forall (fun i => Session.fits_int64 i = true) (ids db).

(* ================================================================== *)
(** * geopy's treatment of coordinates *)
(* ================================================================== *)

(** [geodesic(a, b)] first turns both arguments into a [geopy.Point], which
    validates and normalises the coordinates, and then asks the ellipsoid
    solver for the distance.  geopy is a dependency, not a file of this
    repository: the part modelled here is [geopy.point.Point.__new__] with
    [_normalize_coordinates] (geopy 2.x); the solver itself stays a
    parameter. *)
Module Geopy.

Local Open Scope float_scope.

(** A normalised point: latitude and longitude in degrees. *)
Definition point : Type := (float * float)%type.

(** C's [fmod] on binary64: the remainder of [x / y] with the sign of
    [x], which is always representable. *)
Definition fmod (x y : float) : float :=
  match Prim2SF x, Prim2SF y with
  | S754_finite sx mx ex, S754_finite _ my ey =>
      let e := Z.min ex ey in
      let X := (Z.pos mx * 2 ^ (ex - e))%Z in
      let Y := (Z.pos my * 2 ^ (ey - e))%Z in
      let r := SF2Prim (binary_normalize prec emax (X mod Y)%Z e false) in
      if sx then - r else r
  | S754_zero _, S754_finite _ _ _ => x
  | S754_zero _, S754_infinity _ => x
  | S754_finite _ _ _, S754_infinity _ => x
  | _, _ => nan
  end.

(** [x or 0.0] on a float: a zero of either sign is falsy in Python. *)
Definition float_or_zero (x : float) : float := if x =? 0 then 0 else x.

(** [float(value or 0.0)] on a float or [None]: [None] is falsy too. *)
Definition or_zero (value : option float) : float :=
  match value with
  | Some x => float_or_zero x
  | None => 0
  end.

(** [_normalize_angle(x, limit)]: into the range [-limit, limit). *)
Definition normalize_angle (x limit : float) : float :=
  let double_limit := limit * 2 in
  let modulo := float_or_zero (fmod x double_limit) in
  if modulo <? - limit then modulo + double_limit
  else if limit <=? modulo then modulo - double_limit
  else modulo.

(** [Point((latitude, longitude))]: [None] when geopy raises [ValueError]:
    for a latitude given with [None] as longitude (geopy takes it for a
    single number), for a coordinate that is not finite, and for a latitude
    outside [-90, 90]. *)
Definition Point (coordinates : location) : option point :=
  match coordinates with
  | (Some _, None) => None
  | (latitude, longitude) =>
      let latitude := or_zero latitude in
      let longitude := or_zero longitude in
      if negb (is_finite latitude && is_finite longitude) then None
      else if 90 <? abs latitude then None
      else Some (latitude,
                 if 180 <? abs longitude then normalize_angle longitude 180
                 else longitude)
  end.

(** [geodesic(a, b).kilometers], over the solver's distance in kilometres
    between two normalised points. *)
Definition geodesic_kilometers (inverse : point -> point -> float)
    (a b : location) : option float :=
  match Point a, Point b with
  | Some p, Some q => Some (inverse p q)
  | _, _ => None
  end.

End Geopy.

(* ================================================================== *)
(** * Concrete inputs *)
(* ================================================================== *)

(** A stand-in for the ellipsoid solver, to run the handlers on concrete
    inputs: the taxicab separation of two points at 111 km per degree. *)
Definition taxicab_inverse (p q : Geopy.point) : float :=
  ((abs (p.1 - q.1) + abs (p.2 - q.2)) * 111)%float.

(** Payloads and rows used in the examples below. *)
Definition greenwich : AddressCreate := mkAddressCreate "Greenwich" 51.5 0.
Definition quito : AddressCreate := mkAddressCreate "Quito" 0 (-78.5).
Definition nairobi : AddressCreate := mkAddressCreate "Nairobi" (-1.25) 36.75.

(** A record on the equator at the prime meridian, and the same place
    stored with its longitude one full turn further east. *)
Definition null_island : Address :=
  mkAddress 1 "Null Island" (Some 0%float) (Some 0%float).
Definition null_island_turned : Address :=
  mkAddress 2 "Null Island" (Some 0%float) (Some 360%float).

(** A record whose latitude lies outside [-90, 90]. *)
Definition beyond_pole : AddressCreate := mkAddressCreate "beyond" 100 0.

(** Three records 1, 5 and 10 degrees north of the reference point. *)
Definition one_north : Address :=
  mkAddress 1 "one" (Some 1%float) (Some 0%float).
Definition five_north : Address :=
  mkAddress 2 "five" (Some 5%float) (Some 0%float).
Definition ten_north : Address :=
  mkAddress 3 "ten" (Some 10%float) (Some 0%float).

(** A name that UTF-8 cannot encode: the lone surrogate U+D800. *)
Definition lone_surrogate : str := Str [0xD800%N].

(** The smallest integer above the signed 64-bit range. *)
Definition two_to_63 : Z := 2 ^ 63.

(* ================================================================== *)
(** * The handlers on concrete inputs *)
(* ================================================================== *)

Example create_on_empty_table :
  create_address greenwich [] =
    (Ok (mkAddress 1 "Greenwich" (Some 51.5%float) (Some 0%float)),
     [mkAddress 1 "Greenwich" (Some 51.5%float) (Some 0%float)]).
Proof. reflexivity. Qed.

Example create_stores_nan_as_null :
  create_address (mkAddressCreate "nowhere" nan (-0)) [] =
    (Ok (mkAddress 1 "nowhere" None (Some 0%float)),
     [mkAddress 1 "nowhere" None (Some 0%float)]).
Proof. reflexivity. Qed.

Example create_with_lone_surrogate :
  create_address (mkAddressCreate lone_surrogate 1 2) [one_north] =
    (Raise UnicodeEncodeError, [one_north]).
Proof. reflexivity. Qed.

Example update_second_of_three :
  update_address 2 (mkAddressUpdate "cinq" 5.5 0.25)
    [one_north; five_north; ten_north] =
    (Ok (mkAddress 2 "cinq" (Some 5.5%float) (Some 0.25%float)),
     [one_north; mkAddress 2 "cinq" (Some 5.5%float) (Some 0.25%float);
      ten_north]).
Proof. reflexivity. Qed.

Example update_unknown_id :
  update_address 7 (mkAddressUpdate "cinq" 5.5 0.25) [one_north; five_north] =
    (Raise NotFound, [one_north; five_north]).
Proof. reflexivity. Qed.

Example update_id_beyond_64_bits :
  update_address two_to_63 (mkAddressUpdate "cinq" 5.5 0.25)
    [one_north; five_north] =
    (Raise OverflowError, [one_north; five_north]).
Proof. reflexivity. Qed.

Example delete_twice :
  delete_address 2 [one_north; five_north; ten_north] =
    (Ok five_north, [one_north; ten_north]) /\
  delete_address 2 [one_north; ten_north] =
    (Raise NotFound, [one_north; ten_north]).
Proof. split; reflexivity. Qed.

(** With the stand-in solver the three records are 111, 555 and 1110 km
    away; a radius of 555 km keeps the first two, in table order, the
    second one lying exactly on the boundary. *)
Example within_555_km :
  get_addresses_within_distance (Geopy.geodesic_kilometers taxicab_inverse)
    0 0 555 [one_north; five_north; ten_north] =
    (Ok [one_north; five_north], [one_north; five_north; ten_north]).
Proof. reflexivity. Qed.

Example within_negative_radius :
  get_addresses_within_distance (Geopy.geodesic_kilometers taxicab_inverse)
    0 0 (-1) [one_north; five_north; ten_north] =
    (Ok [], [one_north; five_north; ten_north]).
Proof. reflexivity. Qed.

Example Point_normalises_longitude :
  Geopy.Point (Some 45, Some 190)%float = Some (45, -170)%float /\
  Geopy.Point (Some 0, Some 360)%float = Some (0, 0)%float /\
  Geopy.Point (Some (-0), Some 0)%float = Some (0, 0)%float /\
  Geopy.Point (None, Some 10%float) = Some (0, 10)%float /\
  Geopy.Point (None, None) = Some (0, 0)%float.
Proof. repeat split; reflexivity. Qed.

Example Point_rejects :
  Geopy.Point (Some 100, Some 0)%float = None /\
  Geopy.Point (Some (-90.5), Some 0)%float = None /\
  Geopy.Point (Some nan, Some 0)%float = None /\
  Geopy.Point (Some 0, Some infinity)%float = None /\
  Geopy.Point (Some 10%float, None) = None.
Proof. repeat split; reflexivity. Qed.

(* ================================================================== *)
(** * Facts about the session *)
(* ================================================================== *)

Section SessionFacts.

Import Session.

Lemma first_row_Some key db row :
  first_row key db = Some row -> row ∈ db /\ id row = key.
Proof.
  induction db as [|r db IH]; simpl; [done|].
  destruct (Z.eqb_spec (id r) key) as [Heq|Hne].
  - intros [= <-]. split; [left|done].
  - intros H. destruct (IH H) as [Hin Hid]. split; [by right|done].
Qed.

Lemma first_row_None key db :
  first_row key db = None <-> key ∉ ids db.
Proof.
  unfold ids. induction db as [|r db IH]; simpl.
  - split; [intros _; apply not_elem_of_nil|done].
  - rewrite not_elem_of_cons.
    destruct (Z.eqb_spec (id r) key) as [Heq|Hne].
    + split; [done|]. intros [Hne _]. by destruct Hne.
    + rewrite IH. split; [intros H; split; [done|exact H]|by intros [_ H]].
Qed.

Lemma first_row_is_Some key db :
  is_Some (first_row key db) <-> key ∈ ids db.
Proof.
  destruct (first_row key db) as [row|] eqn:E.
  - split; [intros _|by eauto].
    apply first_row_Some in E as [Hin <-].
    unfold ids. apply list_elem_of_fmap. by exists row.
  - split; [by intros [? [=]]|].
    intros Hin. by apply first_row_None in E.
Qed.

Lemma foldl_max_le (l : list Z) (i : Z) :
  i <= foldl Z.max i l /\ forall j, j ∈ l -> j <= foldl Z.max i l.
Proof.
  revert i. induction l as [|k l IH]; intros i; simpl.
  - split; [lia|]. intros j Hj. by apply elem_of_nil in Hj.
  - destruct (IH (Z.max i k)) as [H1 H2]. split; [lia|].
    intros j [->|Hj]%elem_of_cons; [lia|by apply H2].
Qed.

(** The rowid SQLite picks exceeds every rowid in the table. *)
Lemma next_rowid_gt db i : i ∈ ids db -> i < next_rowid db.
Proof.
  unfold next_rowid. destruct (ids db) as [|k l].
  - intros H. by apply elem_of_nil in H.
  - destruct (foldl_max_le l k) as [H1 H2].
    intros [->|Hi]%elem_of_cons; [lia|]. specialize (H2 _ Hi). lia.
Qed.

Lemma next_rowid_fresh db : next_rowid db ∉ ids db.
Proof. intros H%next_rowid_gt. lia. Qed.

Lemma first_row_app key db row :
  key ∉ ids db ->
  first_row key (db ++ [row]) = if id row =? key then Some row else None.
Proof.
  unfold ids. induction db as [|r db IH]; simpl; [done|].
  rewrite not_elem_of_cons. intros [Hne Hnin].
  destruct (Z.eqb_spec (id r) key); [done|by apply IH].
Qed.

Lemma ids_update_rows obj db : ids (update_rows obj db) = ids db.
Proof.
  unfold ids, update_rows. induction db as [|r db IH]; simpl; [done|].
  f_equal; [|exact IH]. by destruct (id r =? id obj).
Qed.

Lemma first_row_update_rows obj db row :
  first_row (id obj) db = Some row ->
  first_row (id obj) (update_rows obj db) =
    Some (mkAddress (id obj) (name obj)
            (stored_value (latitude obj)) (stored_value (longitude obj))).
Proof.
  unfold update_rows. induction db as [|r db IH]; simpl; [done|].
  destruct (Z.eqb_spec (id r) (id obj)) as [Heq|Hne]; simpl.
  - intros _. rewrite Heq, Z.eqb_refl. done.
  - intros H. apply Z.eqb_neq in Hne. rewrite Hne. by apply IH.
Qed.

Lemma elem_of_update_rows_ne obj db row :
  id row ≠ id obj -> row ∈ update_rows obj db <-> row ∈ db.
Proof.
  intros Hne. unfold update_rows. rewrite list_elem_of_fmap. split.
  - intros (r & -> & Hin).
    destruct (Z.eqb_spec (id r) (id obj)) as [Heq|]; [|done].
    simpl in Hne. by destruct Hne.
  - intros Hin. exists row. split; [|done].
    apply Z.eqb_neq in Hne. by rewrite Hne.
Qed.

Lemma elem_of_delete_commit obj db row :
  row ∈ delete_commit obj db <-> row ∈ db /\ id row ≠ id obj.
Proof.
  unfold delete_commit. rewrite !list_elem_of_In, List.filter_In.
  rewrite negb_true_iff, Z.eqb_neq. done.
Qed.

Lemma delete_commit_sublist obj db : delete_commit obj db `sublist_of` db.
Proof.
  unfold delete_commit. induction db as [|r db IH]; simpl; [done|].
  destruct (negb (id r =? id obj)); by constructor.
Qed.

Lemma assign_fields_model_dump address_update db_address :
  assign_fields (model_dump address_update) db_address =
    assigned_object (id db_address) address_update.
Proof. reflexivity. Qed.

End SessionFacts.

(* ================================================================== *)
(** * Comparisons of binary64 numbers *)
(* ================================================================== *)

(** [x == y] implies [x <= y], as for any IEEE comparison. *)
Lemma float_eqb_leb (x y : float) :
  (x =? y)%float = true -> (x <=? y)%float = true.
Proof.
  rewrite FloatAxioms.eqb_spec, leb_spec. unfold SFeqb, SFleb.
  by destruct (SFcompare (Prim2SF x) (Prim2SF y)) as [[]|].
Qed.

Lemma SFeqb_true_cases (a b : spec_float) :
  SFeqb a b = true ->
  a = b \/ ((exists s, a = S754_zero s) /\ (exists s, b = S754_zero s)).
Proof.
  unfold SFeqb, SFcompare.
  destruct a as [sa|sa| |sa ma ea], b as [sb|sb| |sb mb eb]; try done.
  - intros _. right. eauto.
  - destruct sb; done.
  - destruct sb; done.
  - destruct sa; done.
  - destruct sa, sb; try done; by left.
  - destruct sa; done.
  - destruct sa; done.
  - destruct sb; done.
  - intros H. left.
    assert (ea = eb /\ ma = mb /\ sa = sb) as (-> & -> & ->); [|done].
    destruct sa, sb; try done;
      destruct (Z.compare_spec ea eb) as [->| |]; try done;
      destruct (Pos.compare_cont Eq ma mb) eqn:E; try done;
      apply Pos.compare_eq in E; done.
Qed.




(* ================================================================== *)
(** * Create, update and delete *)
(* ================================================================== *)

(** What [update_address] computes, branch by branch. *)
Lemma update_address_overflow address_id address_update db :
  Session.fits_int64 address_id = false ->
  update_address address_id address_update db = (Raise OverflowError, db).
Proof. intros H. unfold update_address, Session.query_first. by rewrite H. Qed.

Lemma update_address_missing address_id address_update db :
  Session.fits_int64 address_id = true ->
  Session.first_row address_id db = None ->
  update_address address_id address_update db = (Raise NotFound, db).
Proof.
  intros Hfits Hq. unfold update_address, Session.query_first.
  by rewrite Hfits, Hq.
Qed.

Lemma update_address_unencodable address_id address_update db db_address :
  Session.fits_int64 address_id = true ->
  Session.first_row address_id db = Some db_address ->
  Session.encodable (update_name address_update) = false ->
  update_address address_id address_update db = (Raise UnicodeEncodeError, db).
Proof.
  intros Hfits Hq Henc. unfold update_address, Session.query_first.
  rewrite Hfits, Hq, assign_fields_model_dump.
  unfold Session.update_commit. cbn [assigned_object name]. by rewrite Henc.
Qed.

Lemma update_address_found address_id address_update db db_address :
  Session.fits_int64 address_id = true ->
  Session.first_row address_id db = Some db_address ->
  Session.encodable (update_name address_update) = true ->
  update_address address_id address_update db =
    (Ok (updated_row address_id address_update),
     Session.update_rows (assigned_object address_id address_update) db).
Proof.
  intros Hfits Hq Henc. unfold update_address, Session.query_first.
  rewrite Hfits, Hq, assign_fields_model_dump.
  destruct (first_row_Some _ _ _ Hq) as [_ Hid]. rewrite Hid.
  unfold Session.update_commit. cbn [assigned_object name id]. rewrite Henc.
  unfold Session.refresh.
  pose proof (first_row_update_rows
                (assigned_object address_id address_update) db db_address Hq)
    as H.
  cbn [assigned_object id name latitude longitude Session.stored_value] in H.
  by rewrite H.
Qed.

(** The table [update_address] leaves, branch by branch. *)
Lemma update_address_table address_id address_update db :
  (update_address address_id address_update db).2 = db \/
  (update_address address_id address_update db).2 =
    Session.update_rows (assigned_object address_id address_update) db.
Proof.
  destruct (Session.fits_int64 address_id) eqn:Hfits;
    [|left; by rewrite update_address_overflow].
  destruct (Session.first_row address_id db) as [row|] eqn:Hq;
    [|left; by rewrite update_address_missing].
  destruct (Session.encodable (update_name address_update)) eqn:Henc.
  - right. by rewrite (update_address_found _ _ _ _ Hfits Hq Henc).
  - left. by rewrite (update_address_unencodable _ _ _ _ Hfits Hq Henc).
Qed.

(** What [delete_address] computes, branch by branch. *)
Lemma delete_address_overflow address_id db :
  Session.fits_int64 address_id = false ->
  delete_address address_id db = (Raise OverflowError, db).
Proof. intros H. unfold delete_address, Session.query_first. by rewrite H. Qed.

Lemma delete_address_missing address_id db :
  Session.fits_int64 address_id = true ->
  Session.first_row address_id db = None ->
  delete_address address_id db = (Raise NotFound, db).
Proof.
  intros Hfits Hq. unfold delete_address, Session.query_first.
  by rewrite Hfits, Hq.
Qed.

Lemma filter_keeps_all {A} (f : A -> bool) (l : list A) :
  (forall x, x ∈ l -> f x = true) -> List.filter f l = l.
Proof.
  induction l as [|x l IH]; simpl; intros H; [done|].
  rewrite (H x) by left. f_equal. apply IH. intros y Hy. apply H. by right.
Qed.

Lemma filter_absent_id address_id db :
  address_id ∉ ids db ->
  List.filter (fun row => negb (id row =? address_id)) db = db.
Proof.
  intros Hnin. apply filter_keeps_all. intros row Hrow.
  apply negb_true_iff, Z.eqb_neq. intros Heq. apply Hnin.
  rewrite <- Heq. unfold ids. apply list_elem_of_fmap. by exists row.
Qed.

Lemma delete_address_found address_id db db_address :
  Session.fits_int64 address_id = true ->
  Session.first_row address_id db = Some db_address ->
  delete_address address_id db =
    (Ok db_address, List.filter (fun row => negb (id row =? address_id)) db).
Proof.
  intros Hfits Hq. unfold delete_address, Session.query_first.
  rewrite Hfits, Hq. unfold Session.delete_commit.
  by destruct (first_row_Some _ _ _ Hq) as [_ ->].
Qed.

(** Whenever the id can be bound, the table [delete_address] leaves is
    the old one without the rows of that id. *)
Lemma delete_address_table address_id db :
  Session.fits_int64 address_id = true ->
  (delete_address address_id db).2 =
    List.filter (fun row => negb (id row =? address_id)) db.
Proof.
  intros Hfits.
  destruct (Session.first_row address_id db) as [row|] eqn:Hq.
  - by rewrite (delete_address_found _ _ _ Hfits Hq).
  - rewrite (delete_address_missing _ _ Hfits Hq). cbn [snd].
    symmetry. by apply filter_absent_id, first_row_None.
Qed.

(** What [create_address] computes. *)
Lemma create_address_run address db :
  Session.encodable (create_name address) = true ->
  create_address address db =
    (Ok (created_row address db), db ++ [created_row address db]).
Proof.
  intros Henc.
  unfold create_address, Session.add_commit, Session.refresh, created_row.
  rewrite Henc, first_row_app by apply next_rowid_fresh.
  cbn [id]. by rewrite Z.eqb_refl.
Qed.

Lemma create_address_unencodable address db :
  Session.encodable (create_name address) = false ->
  create_address address db = (Raise UnicodeEncodeError, db).
Proof.
  intros Henc. unfold create_address, Session.add_commit. by rewrite Henc.
Qed.







(** C10: the update as written, which assigns a field only when its value
    is not [None], computes the same response and the same table as the
    update that overwrites the three fields unconditionally; no entry of
    the dumped payload is [None], so the guard never takes its other
    branch. *)
Theorem update_address_refines_overwrite
    (address_id : Z) (address_update : AddressUpdate) (db : table) :
  update_address address_id address_update db =
    update_overwrite address_id address_update db /\
  Forall (fun entry => is_not_None entry = true) (model_dump address_update).
Proof.
  split.
  - unfold update_overwrite, Session.query_first.
    destruct (Session.fits_int64 address_id) eqn:Hfits;
      [|by apply update_address_overflow].
    destruct (Session.first_row address_id db) as [row|] eqn:Hq;
      [|by apply update_address_missing].
    destruct (first_row_Some _ _ _ Hq) as [_ ->].
    unfold Session.update_commit. cbn [assigned_object name].
    destruct (Session.encodable (update_name address_update)) eqn:Henc.
    + by rewrite (update_address_found _ address_update _ _ Hfits Hq Henc).
    + by rewrite (update_address_unencodable _ address_update _ _ Hfits Hq Henc).
  - unfold model_dump. repeat constructor.
Qed.

(* ================================================================== *)
(** * The proximity query *)
(* ================================================================== *)

Section ProximityFacts.

Variable geodesic_kilometers : location -> location -> option float.

Lemma scan_defined location distance addresses within_distance :
  (forall address, address ∈ addresses ->
     is_Some (geodesic_kilometers location (address_location address))) ->
  scan geodesic_kilometers location distance addresses within_distance =
    Ok (within_distance ++ List.filter (within geodesic_kilometers location distance) addresses).
Proof.
  revert within_distance.
  induction addresses as [|address rest IH]; intros acc Hdef; simpl.
  - by rewrite app_nil_r.
  - destruct (Hdef address) as [km Hkm]; [by left|].
    unfold within at 1. rewrite Hkm.
    rewrite IH by (intros a Ha; apply Hdef; by right).
    destruct (km <=? distance)%float; [|done].
    by rewrite <- app_assoc.
Qed.

Lemma scan_undefined location distance addresses within_distance address :
  address ∈ addresses ->
  geodesic_kilometers location (address_location address) = None ->
  scan geodesic_kilometers location distance addresses within_distance =
    Raise ValueError.
Proof.
  revert within_distance.
  induction addresses as [|a rest IH]; intros acc Hin Hnone; simpl.
  - by apply elem_of_nil in Hin.
  - destruct (geodesic_kilometers location (address_location a)) as [km|] eqn:E;
      [|done].
    apply elem_of_cons in Hin as [->|Hin]; [congruence|by apply IH].
Qed.

(** Every run of the loop ends in one of the two ways above. *)
Lemma scan_cases location distance addresses :
  (scan geodesic_kilometers location distance addresses [] =
     Ok (List.filter (within geodesic_kilometers location distance) addresses) /\
   forall address, address ∈ addresses ->
     is_Some (geodesic_kilometers location (address_location address))) \/
  (scan geodesic_kilometers location distance addresses [] = Raise ValueError /\
   exists address, address ∈ addresses /\
     geodesic_kilometers location (address_location address) = None).
Proof.
  destruct (decide (Forall (fun address =>
    is_Some (geodesic_kilometers location (address_location address)))
    addresses)) as [Hall|Hex].
  - left. rewrite Forall_forall in Hall. split; [|done].
    by rewrite scan_defined.
  - right. apply not_Forall_Exists in Hex; [|apply _].
    apply Exists_exists in Hex as (address & Hin & Hnone).
    assert (geodesic_kilometers location (address_location address) = None)
      as E by (by apply eq_None_not_Some).
    split; [by eapply scan_undefined|by exists address].
Qed.

Lemma elem_of_filter_within location distance addresses address :
  address ∈ List.filter (within geodesic_kilometers location distance) addresses <->
  address ∈ addresses /\
  exists kilometers,
    geodesic_kilometers location (address_location address) = Some kilometers /\
    (kilometers <=? distance)%float = true.
Proof.
  rewrite !list_elem_of_In, List.filter_In. unfold within.
  destruct (geodesic_kilometers location (address_location address)) as [km|].
  - split; [intros [? ?]; eauto|].
    intros [? (km' & [= <-] & ?)]. done.
  - split; [by intros [_ ?]|]. by intros [_ (? & ? & _)].
Qed.

Lemma filter_sublist {A} (f : A -> bool) (l : list A) :
  List.filter f l `sublist_of` l.
Proof.
  induction l as [|x l IH]; simpl; [done|].
  destruct (f x); by constructor.
Qed.

(** C1: the proximity query puts a record in its result exactly when the
    record is stored and its geodesic distance in kilometres from the
    reference point is at most [max_km]; a record at distance exactly
    [max_km] is in the result.  The query has no result only when the
    distance function raises on a stored record. *)
Theorem within_distance_iff_distance_le
    (records : table) (ref_latitude ref_longitude max_km : float) :
  match (get_addresses_within_distance geodesic_kilometers
           ref_latitude ref_longitude max_km records).1 with
  | Ok result =>
      (forall record,
         record ∈ result <->
         record ∈ records /\
         exists kilometers,
           geodesic_kilometers (Some ref_latitude, Some ref_longitude)
             (address_location record) = Some kilometers /\
           (kilometers <=? max_km)%float = true) /\
      (forall record kilometers,
         record ∈ records ->
         geodesic_kilometers (Some ref_latitude, Some ref_longitude)
           (address_location record) = Some kilometers ->
         (kilometers =? max_km)%float = true ->
         record ∈ result)
  | Raise e =>
      e = ValueError /\
      exists record,
        record ∈ records /\
        geodesic_kilometers (Some ref_latitude, Some ref_longitude)
          (address_location record) = None
  end.
Proof.
  unfold get_addresses_within_distance, Session.query_all. cbn [fst].
  destruct (scan_cases (Some ref_latitude, Some ref_longitude) max_km records)
    as [[-> _]|[-> Hex]]; [|done].
  split.
  - intros record. apply elem_of_filter_within.
  - intros record km Hin Hkm Heq. apply elem_of_filter_within.
    split; [done|]. exists km. split; [done|by apply float_eqb_leb].
Qed.

(** C2: the result of the proximity query is the input list filtered by
    the distance test: a subsequence of the input in the input's order,
    with nothing repeated, reordered or made up; and the query leaves the
    table as it was. *)
Theorem within_distance_is_ordered_subsequence
    (records : table) (ref_latitude ref_longitude max_km : float) :
  (get_addresses_within_distance geodesic_kilometers
     ref_latitude ref_longitude max_km records).2 = records /\
  match (get_addresses_within_distance geodesic_kilometers
           ref_latitude ref_longitude max_km records).1 with
  | Ok result =>
      result = List.filter (within geodesic_kilometers (Some ref_latitude, Some ref_longitude) max_km) records /\
      result `sublist_of` records
  | Raise e =>
      exists record,
        record ∈ records /\
        geodesic_kilometers (Some ref_latitude, Some ref_longitude)
          (address_location record) = None
  end.
Proof.
  split; [done|].
  unfold get_addresses_within_distance, Session.query_all. cbn [fst].
  destruct (scan_cases (Some ref_latitude, Some ref_longitude) max_km records)
    as [[-> _]|[-> Hex]]; [|done].
  split; [done|apply filter_sublist].
Qed.

End ProximityFacts.

(* ================================================================== *)
(** * Delete, and what a mutation leaves alone *)
(* ================================================================== *)

Lemma ids_after_delete address_id db i :
  i ∈ ids (List.filter (fun row => negb (id row =? address_id)) db) <->
  i ∈ ids db /\ i ≠ address_id.
Proof.
  unfold ids. rewrite !list_elem_of_fmap. split.
  - intros (row & -> & Hin).
    apply list_elem_of_In, List.filter_In in Hin as [Hin Hne].
    apply negb_true_iff, Z.eqb_neq in Hne.
    split; [exists row; split; [done|by apply list_elem_of_In]|done].
  - intros [(row & -> & Hin) Hne]. exists row. split; [done|].
    apply list_elem_of_In, List.filter_In. split; [by apply list_elem_of_In|].
    by apply negb_true_iff, Z.eqb_neq.
Qed.

Lemma update_rows_pointwise obj db :
  Forall2 (fun old new => id new = id old /\ (id old ≠ id obj -> new = old))
    db (Session.update_rows obj db).
Proof.
  unfold Session.update_rows. induction db as [|r db IH]; simpl; constructor.
  - destruct (Z.eqb_spec (id r) (id obj)); simpl; split; done.
  - exact IH.
Qed.

Lemma unchanged_pointwise (address_id : Z) (db : table) :
  Forall2 (fun old new => id new = id old /\ (id old ≠ address_id -> new = old))
    db db.
Proof.
  apply Forall2_same_length_lookup. split; [done|].
  intros i x y Hx Hy. by simplify_eq.
Qed.

(** The table [delete_address] leaves is always a subsequence of the old
    one that keeps every row of another id. *)
Lemma delete_address_keeps address_id db :
  (delete_address address_id db).2 `sublist_of` db /\
  forall row, id row ≠ address_id ->
    row ∈ (delete_address address_id db).2 <-> row ∈ db.
Proof.
  destruct (Session.fits_int64 address_id) eqn:Hfits.
  - rewrite (delete_address_table _ _ Hfits). split; [apply filter_sublist|].
    intros row Hne.
    rewrite list_elem_of_In, List.filter_In, <- list_elem_of_In.
    rewrite negb_true_iff, Z.eqb_neq. tauto.
  - by rewrite (delete_address_overflow _ _ Hfits).
Qed.

Section DeleteFacts.

Variable geodesic_kilometers : location -> location -> option float.

(** C5, with the failing input: for an id outside the signed 64-bit range
    [delete_address] raises [OverflowError] and leaves the table, as for
    the id 2^63 on a table that has no such record.  For an id within the
    range it fails with NotFound exactly when no record of the table has
    the id; when one has, the call returns that record as it was before
    the deletion and removes it: afterwards no listed record has the id,
    an update or a second delete of the id fails with NotFound, and no
    result of the proximity query holds the id. *)
Theorem delete_address_not_found_or_removes (address_id : Z) (db : table) :
  (delete_address two_to_63 [one_north] = (Raise OverflowError, [one_north]) /\
   two_to_63 ∉ ids [one_north]) /\
  (Session.fits_int64 address_id = false ->
   delete_address address_id db = (Raise OverflowError, db)) /\
  (Session.fits_int64 address_id = true ->
   ((delete_address address_id db).1 = Raise NotFound <-> address_id ∉ ids db) /\
   (address_id ∉ ids db ->
      delete_address address_id db = (Raise NotFound, db)) /\
   (address_id ∈ ids db ->
      exists deleted db',
        delete_address address_id db = (Ok deleted, db') /\
        Session.first_row address_id db = Some deleted /\
        deleted ∈ db /\
        id deleted = address_id /\
        (address_id ∉ ids (Session.query_all db')) /\
        (forall address_update,
           update_address address_id address_update db' = (Raise NotFound, db')) /\
        delete_address address_id db' = (Raise NotFound, db') /\
        (forall latitude longitude distance result,
           (get_addresses_within_distance geodesic_kilometers
              latitude longitude distance db').1 = Ok result ->
           address_id ∉ ids result))).
Proof.
  split; [split; [reflexivity|]|split].
  - cbn. intros [Heq|Hnil%elem_of_nil]%elem_of_cons; [|done].
    unfold two_to_63 in Heq. lia.
  - apply delete_address_overflow.
  - intros Hfits.
    destruct (Session.first_row address_id db) as [row|] eqn:Hq.
    + pose proof (delete_address_found _ _ _ Hfits Hq) as Hrun.
      assert (address_id ∈ ids db) as Hin by (apply first_row_is_Some; eauto).
      split; [|split].
      * rewrite Hrun. simpl. split; [done|]. intros Hnin. by destruct Hnin.
      * intros Hnin. by destruct Hnin.
      * intros _. eexists _, _. split; [exact Hrun|].
        destruct (first_row_Some _ _ _ Hq) as [Hrow Hid].
        assert (address_id ∉
                  ids (List.filter (fun r => negb (id r =? address_id)) db))
          as Hgone by (rewrite ids_after_delete; by intros [_ ?]).
        repeat split; try done.
        -- intros address_update. apply update_address_missing; [done|].
           by apply first_row_None.
        -- apply delete_address_missing; [done|]. by apply first_row_None.
        -- intros latitude longitude distance result.
           unfold get_addresses_within_distance, Session.query_all. cbn [fst].
           destruct (scan_cases geodesic_kilometers
                       (Some latitude, Some longitude) distance
                       (List.filter (fun r => negb (id r =? address_id)) db))
             as [[-> _]|[-> _]]; [|done].
           intros [= <-] Hres. apply Hgone.
           unfold ids in *. apply list_elem_of_fmap in Hres as (r & -> & Hr).
           apply list_elem_of_fmap. exists r. split; [done|].
           by apply elem_of_filter_within in Hr as [? _].
    + pose proof (delete_address_missing _ _ Hfits Hq) as Hrun.
      apply first_row_None in Hq.
      split; [|split].
      * by rewrite Hrun.
      * done.
      * intros Hin. by destruct Hq.
Qed.

End DeleteFacts.

Lemma ids_after_update address_id db address_update :
  ids (update_address address_id address_update db).2 = ids db.
Proof.
  destruct (update_address_table address_id address_update db) as [->| ->];
    [done|apply ids_update_rows].
Qed.

Lemma elem_of_after_update address_id address_update db row :
  id row ≠ address_id ->
  row ∈ (update_address address_id address_update db).2 <-> row ∈ db.
Proof.
  intros Hne.
  destruct (update_address_table address_id address_update db) as [->| ->];
    [done|].
  by apply (elem_of_update_rows_ne (assigned_object address_id address_update)).
Qed.

(** C9: an update and a delete touch only the record with the given id.
    After [update_address] the table holds the same ids at the same
    positions, and every record with another id is unchanged; after
    [delete_address] the table is the old one without the records of that
    id, so the other records, their order and their ids are as before. *)
Theorem update_and_delete_touch_one_record (address_id : Z) (db : table) :
  (forall address_update,
     ids (update_address address_id address_update db).2 = ids db /\
     Forall2 (fun old new =>
                id new = id old /\ (id old ≠ address_id -> new = old))
       db (update_address address_id address_update db).2 /\
     (forall row, id row ≠ address_id ->
        row ∈ (update_address address_id address_update db).2 <-> row ∈ db)) /\
  (delete_address address_id db).2 `sublist_of` db /\
  (forall row, id row ≠ address_id ->
     row ∈ (delete_address address_id db).2 <-> row ∈ db) /\
  (forall i, i ≠ address_id ->
     i ∈ ids (delete_address address_id db).2 <-> i ∈ ids db).
Proof.
  split; [|split; [|split]].
  - intros address_update. split; [apply ids_after_update|]. split.
    + destruct (update_address_table address_id address_update db)
        as [->| ->]; [apply unchanged_pointwise|].
      apply (update_rows_pointwise (assigned_object address_id address_update)).
    + intros row Hne. by apply elem_of_after_update.
  - apply delete_address_keeps.
  - apply delete_address_keeps.
  - intros i Hne. destruct (Session.fits_int64 address_id) eqn:Hfits.
    + rewrite (delete_address_table _ _ Hfits), ids_after_delete. tauto.
    + by rewrite (delete_address_overflow _ _ Hfits).
Qed.

(* ================================================================== *)
(** * Identity of records over histories *)
(* ================================================================== *)

(** The table [create_address] leaves: the old one, with the created row
    at its end when the name could be bound. *)
Lemma create_address_table address db :
  (Session.encodable (create_name address) = false /\
   (create_address address db).2 = db) \/
  (Session.encodable (create_name address) = true /\
   (create_address address db).2 = db ++ [created_row address db]).
Proof.
  destruct (Session.encodable (create_name address)) eqn:Henc.
  - right. by rewrite (create_address_run _ _ Henc).
  - left. by rewrite (create_address_unencodable _ _ Henc).
Qed.

Lemma ids_after_create address db :
  Session.encodable (create_name address) = true ->
  ids (create_address address db).2 = ids db ++ [Session.next_rowid db].
Proof.
  intros Henc. rewrite (create_address_run _ _ Henc). cbn [snd].
  unfold ids. by rewrite List.map_app.
Qed.

Lemma serve_preserves_NoDup req db : NoDup (ids db) -> NoDup (ids (serve req db)).
Proof.
  intros Hnd. destruct req as [address|address_id address_update|address_id];
    unfold serve.
  - destruct (create_address_table address db) as [[_ ->]|[Henc _]]; [done|].
    rewrite (ids_after_create _ _ Henc).
    pose proof (next_rowid_fresh db) as Hfresh.
    apply NoDup_app. split; [done|]. split; [|apply NoDup_singleton].
    intros i Hi [->|Hnil%elem_of_nil]%elem_of_cons; done.
  - by rewrite ids_after_update.
  - eapply sublist_NoDup; [exact Hnd|].
    unfold ids. apply fmap_sublist, delete_address_keeps.
Qed.

(** No two records of a reachable table share an id. *)
Lemma reachable_NoDup db : reachable db -> NoDup (ids db).
Proof.
  induction 1 as [|req db _ IH]; [apply NoDup_nil_2|].
  by apply serve_preserves_NoDup.
Qed.

Lemma StronglySorted_sublist {A} (R : relation A) (l1 l2 : list A) :
  l1 `sublist_of` l2 -> StronglySorted R l2 -> StronglySorted R l1.
Proof.
  induction 1 as [|x l1 l2 Hsub IH|x l1 l2 Hsub IH]; intros Hs.
  - constructor.
  - apply StronglySorted_inv in Hs as [Hs Hall]. constructor; [by apply IH|].
    rewrite Forall_forall in *. intros y Hy. apply Hall.
    by eapply elem_of_sublist.
  - apply StronglySorted_inv in Hs as [Hs _]. by apply IH.
Qed.

Lemma serve_preserves_sorted req db :
  StronglySorted Z.lt (ids db) -> StronglySorted Z.lt (ids (serve req db)).
Proof.
  intros Hs. destruct req as [address|address_id address_update|address_id];
    unfold serve.
  - destruct (create_address_table address db) as [[_ ->]|[Henc _]]; [done|].
    rewrite (ids_after_create _ _ Henc).
    apply StronglySorted_app_2; [|done|repeat constructor].
    intros i j Hi [->|Hnil%elem_of_nil]%elem_of_cons; [|done].
    by apply next_rowid_gt.
  - by rewrite ids_after_update.
  - eapply StronglySorted_sublist; [|exact Hs].
    unfold ids. apply fmap_sublist, delete_address_keeps.
Qed.

(** A reachable table lists its records by ascending id: the order of the
    list is both the order of insertion and the order of a rowid scan. *)
Lemma reachable_sorted db : reachable db -> StronglySorted Z.lt (ids db).
Proof.
  induction 1 as [|req db _ IH]; [constructor|].
  by apply serve_preserves_sorted.
Qed.

(** C8, as the code has it: in every table reachable by create, update and
    delete requests each id is held by at most one record, and a newly
    created record gets an id greater than every id held at that moment,
    so the table stays free of repeated ids.  (An id that is no longer
    held, such as that of a deleted last record, can be given out again.)
    A creation happens whenever the name can be encoded. *)
Theorem live_ids_unique_and_new_id_above_live_ids (db : table) :
  reachable db ->
  NoDup (ids db) /\
  forall address,
    (Session.encodable (create_name address) = true ->
     exists created,
       create_address address db = (Ok created, db ++ [created]) /\
       (forall i, i ∈ ids db -> i < id created) /\
       NoDup (ids (db ++ [created]))) /\
    (forall created db',
       create_address address db = (Ok created, db') ->
       db' = db ++ [created] /\
       (forall i, i ∈ ids db -> i < id created) /\
       NoDup (ids db')).
Proof.
  intros Hreach. split; [by apply reachable_NoDup|].
  intros address.
  assert (Session.encodable (create_name address) = true ->
          create_address address db =
            (Ok (created_row address db), db ++ [created_row address db]) /\
          (forall i, i ∈ ids db -> i < id (created_row address db)) /\
          NoDup (ids (db ++ [created_row address db]))) as Hcreated.
  { intros Henc. split; [by apply create_address_run|]. split.
    - intros i Hi. by apply next_rowid_gt.
    - pose proof (reachable_NoDup _ (reachable_serve (POST address) db Hreach))
        as H.
      unfold serve in H. by rewrite (create_address_run _ _ Henc) in H. }
  split.
  - intros Henc. exists (created_row address db). by apply Hcreated.
  - intros created db' Hrun.
    destruct (Session.encodable (create_name address)) eqn:Henc.
    + destruct Hcreated as (Hrun' & Hgt & Hnd); [done|].
      rewrite Hrun' in Hrun. by injection Hrun as <- <-.
    + by rewrite (create_address_unencodable _ _ Henc) in Hrun.
Qed.

(** The theorem above at the table left by one POST. *)
Lemma live_ids_unique_after_one_post :
  NoDup (ids (serve (POST greenwich) [])) /\
  forall address,
    (Session.encodable (create_name address) = true ->
     exists created,
       create_address address (serve (POST greenwich) []) =
         (Ok created, serve (POST greenwich) [] ++ [created]) /\
       (forall i, i ∈ ids (serve (POST greenwich) []) -> i < id created) /\
       NoDup (ids (serve (POST greenwich) [] ++ [created]))) /\
    (forall created db',
       create_address address (serve (POST greenwich) []) = (Ok created, db') ->
       db' = serve (POST greenwich) [] ++ [created] /\
       (forall i, i ∈ ids (serve (POST greenwich) []) -> i < id created) /\
       NoDup (ids db')).
Proof.
  apply (live_ids_unique_and_new_id_above_live_ids (serve (POST greenwich) [])).
  apply reachable_serve. apply reachable_empty.
Defined.

(** C8 counterexample: two records are created, the second is deleted, and
    the next record created receives the id of the deleted one. *)
Lemma deleted_id_is_assigned_again :
  create_address greenwich [] =
    (Ok (mkAddress 1 "Greenwich" (Some 51.5%float) (Some 0%float)),
     [mkAddress 1 "Greenwich" (Some 51.5%float) (Some 0%float)]) /\
  create_address quito [mkAddress 1 "Greenwich" (Some 51.5%float) (Some 0%float)] =
    (Ok (mkAddress 2 "Quito" (Some 0%float) (Some (-78.5)%float)),
     [mkAddress 1 "Greenwich" (Some 51.5%float) (Some 0%float);
      mkAddress 2 "Quito" (Some 0%float) (Some (-78.5)%float)]) /\
  delete_address 2
    [mkAddress 1 "Greenwich" (Some 51.5%float) (Some 0%float);
     mkAddress 2 "Quito" (Some 0%float) (Some (-78.5)%float)] =
    (Ok (mkAddress 2 "Quito" (Some 0%float) (Some (-78.5)%float)),
     [mkAddress 1 "Greenwich" (Some 51.5%float) (Some 0%float)]) /\
  create_address nairobi
    [mkAddress 1 "Greenwich" (Some 51.5%float) (Some 0%float)] =
    (Ok (mkAddress 2 "Nairobi" (Some (-1.25)%float) (Some 36.75%float)),
     [mkAddress 1 "Greenwich" (Some 51.5%float) (Some 0%float);
      mkAddress 2 "Nairobi" (Some (-1.25)%float) (Some 36.75%float)]) /\
  reachable
    [mkAddress 1 "Greenwich" (Some 51.5%float) (Some 0%float);
     mkAddress 2 "Nairobi" (Some (-1.25)%float) (Some 36.75%float)].
Proof.
  repeat split; try reflexivity.
  apply (reachable_serve (POST nairobi)
           [mkAddress 1 "Greenwich" (Some 51.5%float) (Some 0%float)]).
  apply (reachable_serve (DELETE 2)
           [mkAddress 1 "Greenwich" (Some 51.5%float) (Some 0%float);
            mkAddress 2 "Quito" (Some 0%float) (Some (-78.5)%float)]).
  apply (reachable_serve (POST quito)
           [mkAddress 1 "Greenwich" (Some 51.5%float) (Some 0%float)]).
  apply (reachable_serve (POST greenwich) []).
  apply reachable_empty.
Qed.

(* ================================================================== *)
(** * The proximity query over geopy *)
(* ================================================================== *)

Section GeopyFacts.

Import Geopy.

(** Floats Python holds equal are normalised alike. *)
Lemma float_or_zero_eqb (x y : float) :
  (x =? y)%float = true -> float_or_zero x = float_or_zero y.
Proof.
  rewrite FloatAxioms.eqb_spec. intros H.
  apply SFeqb_true_cases in H as [H|[[sx Hx] [sy Hy]]].
  - by rewrite (Prim2SF_inj _ _ H).
  - unfold float_or_zero. rewrite !FloatAxioms.eqb_spec, Hx, Hy. done.
Qed.

(** Coordinates Python holds equal give the same point. *)
Lemma Point_location_eqb (a b : location) :
  location_eqb a b = true -> Point a = Point b.
Proof.
  unfold location_eqb.
  destruct a as [[x1|] [x2|]], b as [[y1|] [y2|]]; simpl; try done.
  - intros [H1 H2]%andb_true_iff. unfold Point, or_zero.
    by rewrite (float_or_zero_eqb _ _ H1), (float_or_zero_eqb _ _ H2).
  - rewrite andb_false_r. done.
  - rewrite andb_false_r. done.
  - intros H2. unfold Point, or_zero. by rewrite (float_or_zero_eqb _ _ H2).
Qed.

(** A stored record geopy rejects makes every proximity query raise. *)
Lemma query_raises_on_rejected_record inverse latitude longitude distance
    (db : table) (record : Address) :
  record ∈ db ->
  Point (address_location record) = None ->
  get_addresses_within_distance (geodesic_kilometers inverse)
    latitude longitude distance db = (Raise ValueError, db).
Proof.
  intros Hin Hnone. unfold get_addresses_within_distance, Session.query_all.
  f_equal. eapply scan_undefined; [exact Hin|].
  unfold geodesic_kilometers. rewrite Hnone.
  by destruct (Point (Some latitude, Some longitude)).
Qed.

(** C3 at a failing input: [create_address] accepts a latitude of 100
    degrees and stores it as it is; from then on every proximity query,
    whatever its reference point and radius, raises geopy's [ValueError]
    instead of returning a list. *)
Theorem proximity_query_raises_after_latitude_100
    (inverse : point -> point -> float)
    (ref_latitude ref_longitude max_km : float) :
  create_address beyond_pole [] =
    (Ok (mkAddress 1 "beyond" (Some 100%float) (Some 0%float)),
     [mkAddress 1 "beyond" (Some 100%float) (Some 0%float)]) /\
  get_addresses_within_distance (geodesic_kilometers inverse)
    ref_latitude ref_longitude max_km
    [mkAddress 1 "beyond" (Some 100%float) (Some 0%float)] =
    (Raise ValueError, [mkAddress 1 "beyond" (Some 100%float) (Some 0%float)]).
Proof.
  split; [reflexivity|].
  apply (query_raises_on_rejected_record _ _ _ _ _
           (mkAddress 1 "beyond" (Some 100%float) (Some 0%float))).
  - by left.
  - reflexivity.
Qed.

(** C6 counterexample: with reference point (0, 0) and radius 0, whatever
    the solver measures from that point to itself, either the record
    stored at (0, 360), whose coordinates differ from the reference, is
    returned, or the record stored at (0, 0), whose coordinates equal the
    reference, is not. *)
Lemma radius_zero_is_not_coordinate_equality :
  location_eqb (address_location null_island_turned)
    (Some 0, Some 0)%float = false /\
  location_eqb (address_location null_island) (Some 0, Some 0)%float = true /\
  forall inverse : point -> point -> float,
    get_addresses_within_distance (geodesic_kilometers inverse) 0 0 0
      [null_island_turned] = (Ok [null_island_turned], [null_island_turned]) \/
    get_addresses_within_distance (geodesic_kilometers inverse) 0 0 0
      [null_island] = (Ok [], [null_island]).
Proof.
  split; [reflexivity|]. split; [reflexivity|].
  intros inverse.
  unfold get_addresses_within_distance, Session.query_all, scan,
    geodesic_kilometers.
  change (Point (Some 0, Some 0)%float) with (Some (0, 0)%float).
  change (Point (address_location null_island_turned))
    with (Some (0, 0)%float).
  change (Point (address_location null_island)) with (Some (0, 0)%float).
  cbv beta iota.
  destruct (inverse (0, 0)%float (0, 0)%float <=? 0)%float; [by left|by right].
Qed.

(** C6, as the code has it: when geopy accepts the reference point and
    every stored coordinate pair, the proximity query with radius 0
    returns exactly the stored records whose geodesic distance from the
    reference point is at most 0; given that the solver puts the reference
    point at distance at most 0 from itself, every record whose coordinates
    equal the reference pair is among them. *)
Theorem radius_zero_returns_records_at_distance_zero
    (inverse : point -> point -> float) (db : table)
    (ref_latitude ref_longitude : float) (p : point) :
  Point (Some ref_latitude, Some ref_longitude) = Some p ->
  (inverse p p <=? 0)%float = true ->
  (forall record, record ∈ db -> is_Some (Point (address_location record))) ->
  exists result,
    get_addresses_within_distance (geodesic_kilometers inverse)
      ref_latitude ref_longitude 0 db = (Ok result, db) /\
    (forall record,
       record ∈ result <->
       record ∈ db /\
       exists kilometers,
         geodesic_kilometers inverse (Some ref_latitude, Some ref_longitude)
           (address_location record) = Some kilometers /\
         (kilometers <=? 0)%float = true) /\
    (forall record,
       record ∈ db ->
       location_eqb (address_location record)
         (Some ref_latitude, Some ref_longitude) = true ->
       record ∈ result).
Proof.
  intros Href Hself Hdb.
  exists (List.filter
            (within (geodesic_kilometers inverse)
               (Some ref_latitude, Some ref_longitude) 0)
            db).
  split; [|split].
  - unfold get_addresses_within_distance, Session.query_all. f_equal.
    rewrite scan_defined; [done|].
    intros record [q Hq]%Hdb. unfold geodesic_kilometers.
    rewrite Href, Hq. eauto.
  - intros record. apply elem_of_filter_within.
  - intros record Hin Heq. apply elem_of_filter_within. split; [done|].
    exists (inverse p p). split; [|done].
    unfold geodesic_kilometers.
    by rewrite (Point_location_eqb _ _ Heq), Href.
Qed.

(** The theorem above on a table of three records, two of them at the
    reference point. *)
Lemma radius_zero_on_three_records :
  exists result,
    get_addresses_within_distance (geodesic_kilometers taxicab_inverse)
      0 0 0
      [null_island; null_island_turned;
       mkAddress 3 "Quito" (Some 0%float) (Some (-78.5)%float)] =
      (Ok result,
       [null_island; null_island_turned;
        mkAddress 3 "Quito" (Some 0%float) (Some (-78.5)%float)]) /\
    (forall record,
       record ∈ result <->
       record ∈ [null_island; null_island_turned;
                 mkAddress 3 "Quito" (Some 0%float) (Some (-78.5)%float)] /\
       exists kilometers,
         geodesic_kilometers taxicab_inverse (Some 0, Some 0)%float
           (address_location record) = Some kilometers /\
         (kilometers <=? 0)%float = true) /\
    (forall record,
       record ∈ [null_island; null_island_turned;
                 mkAddress 3 "Quito" (Some 0%float) (Some (-78.5)%float)] ->
       location_eqb (address_location record) (Some 0, Some 0)%float = true ->
       record ∈ result).
Proof.
  apply (radius_zero_returns_records_at_distance_zero taxicab_inverse
           [null_island; null_island_turned;
            mkAddress 3 "Quito" (Some 0%float) (Some (-78.5)%float)]
           0 0 (0, 0)%float).
  - reflexivity.
  - reflexivity.
  - intros record Hin.
    repeat (apply elem_of_cons in Hin as [->|Hin]; [by eexists|]).
    by apply elem_of_nil in Hin.
Defined.

End GeopyFacts.

(* ================================================================== *)
(** * Further properties: the store *)
(* ================================================================== *)

(** In a table without repeated ids a stored row is the first, and only,
    row under its id. *)
Lemma first_row_stored db row :
  NoDup (ids db) -> row ∈ db -> Session.first_row (id row) db = Some row.
Proof.
  unfold ids. induction db as [|r db IH]; simpl; intros Hnd Hin.
  - by apply elem_of_nil in Hin.
  - apply NoDup_cons in Hnd as [Hr Hnd].
    apply elem_of_cons in Hin as [->|Hin]; [by rewrite Z.eqb_refl|].
    destruct (Z.eqb_spec (id r) (id row)) as [Heq|_]; [|by apply IH].
    destruct Hr. rewrite Heq. apply list_elem_of_fmap. by exists row.
Qed.

Lemma filter_commute {A} (f g : A -> bool) (l : list A) :
  List.filter f (List.filter g l) = List.filter g (List.filter f l).
Proof.
  induction l as [|x l IH]; simpl; [done|].
  destruct (g x) eqn:Hg, (f x) eqn:Hf; simpl; rewrite ?Hg, ?Hf, IH; done.
Qed.

Lemma first_row_after_delete i j db :
  i ≠ j ->
  Session.first_row j (List.filter (fun row => negb (id row =? i)) db) =
    Session.first_row j db.
Proof.
  intros Hne. induction db as [|r db IH]; simpl; [done|].
  destruct (Z.eqb_spec (id r) i) as [Hi|Hi]; simpl.
  - destruct (Z.eqb_spec (id r) j) as [Hj|_]; [congruence|done].
  - by rewrite IH.
Qed.



(** X1: in every table reachable by create, update and delete requests the
    records are listed by strictly ascending id, and so is every result of
    the proximity query. *)
Theorem reachable_tables_list_ascending_ids
    (geodesic_kilometers : location -> location -> option float)
    (db : table) (latitude longitude distance : float) :
  reachable db ->
  StronglySorted Z.lt (ids (Session.query_all db)) /\
  forall result,
    (get_addresses_within_distance geodesic_kilometers
       latitude longitude distance db).1 = Ok result ->
    StronglySorted Z.lt (ids result).
Proof.
  intros Hreach. pose proof (reachable_sorted _ Hreach) as Hs.
  split; [done|]. intros result.
  unfold get_addresses_within_distance, Session.query_all. cbn [fst].
  destruct (scan_cases geodesic_kilometers (Some latitude, Some longitude)
              distance db)
    as [[-> _]|[-> _]]; [|done].
  intros [= <-]. eapply StronglySorted_sublist; [|exact Hs].
  unfold ids. apply fmap_sublist, filter_sublist.
Qed.

(** The theorem above after two creations and a deletion. *)
Lemma ascending_ids_after_three_requests :
  StronglySorted Z.lt
    (ids (Session.query_all
            (serve (DELETE 1) (serve (POST quito) (serve (POST greenwich) []))))) /\
  forall result,
    (get_addresses_within_distance (Geopy.geodesic_kilometers taxicab_inverse)
       0 0 10000
       (serve (DELETE 1) (serve (POST quito) (serve (POST greenwich) [])))).1 =
      Ok result ->
    StronglySorted Z.lt (ids result).
Proof.
  apply (reachable_tables_list_ascending_ids
           (Geopy.geodesic_kilometers taxicab_inverse)
           (serve (DELETE 1) (serve (POST quito) (serve (POST greenwich) [])))).
  do 3 apply reachable_serve. apply reachable_empty.
Defined.



(** X3: creating a record and then deleting the id it was given returns
    the created record and leaves the table exactly as it was before the
    creation, whatever the table held. *)
Theorem create_then_delete_restores_table
    (address : AddressCreate) (db db' : table) (created : Address) :
  create_address address db = (Ok created, db') ->
  Session.fits_int64 (id created) = true ->
  delete_address (id created) db' = (Ok created, db).
Proof.
  intros Hrun Hfits.
  destruct (Session.encodable (create_name address)) eqn:Henc;
    [|by rewrite (create_address_unencodable _ _ Henc) in Hrun].
  rewrite (create_address_run _ _ Henc) in Hrun.
  injection Hrun as <- <-.
  pose proof (next_rowid_fresh db) as Hfresh.
  assert (Session.first_row (id (created_row address db))
            (db ++ [created_row address db]) = Some (created_row address db))
    as Hq.
  { rewrite first_row_app by exact Hfresh. by rewrite Z.eqb_refl. }
  rewrite (delete_address_found _ _ _ Hfits Hq). f_equal.
  rewrite List.filter_app. simpl. rewrite Z.eqb_refl. simpl.
  rewrite app_nil_r. by apply filter_absent_id.
Qed.

(** The theorem above on a table of one record. *)
Lemma create_then_delete_on_one_record :
  delete_address
    (id (mkAddress 2 "Quito" (Some 0%float) (Some (-78.5)%float)))
    [one_north; mkAddress 2 "Quito" (Some 0%float) (Some (-78.5)%float)] =
    (Ok (mkAddress 2 "Quito" (Some 0%float) (Some (-78.5)%float)), [one_north]).
Proof.
  apply (create_then_delete_restores_table quito [one_north]
           [one_north; mkAddress 2 "Quito" (Some 0%float) (Some (-78.5)%float)]
           (mkAddress 2 "Quito" (Some 0%float) (Some (-78.5)%float))).
  - reflexivity.
  - reflexivity.
Defined.



(** X5: deletions of two ids commute: either order leaves the same table,
    and deleting one id first does not change what the deletion of a
    different id answers. *)
Theorem deletes_of_two_ids_commute (i j : Z) (db : table) :
  (delete_address j (delete_address i db).2).2 =
    (delete_address i (delete_address j db).2).2 /\
  (i ≠ j ->
   (delete_address j (delete_address i db).2).1 = (delete_address j db).1).
Proof.
  destruct (Session.fits_int64 i) eqn:Hi, (Session.fits_int64 j) eqn:Hj.
  - split.
    + rewrite !delete_address_table by done. apply filter_commute.
    + intros Hne. rewrite (delete_address_table i) by done.
      unfold delete_address, Session.query_first. rewrite Hj.
      rewrite (first_row_after_delete i j db Hne).
      by destruct (Session.first_row j db).
  - rewrite !(delete_address_overflow j) by done. cbn [fst snd]. done.
  - rewrite !(delete_address_overflow i) by done. cbn [fst snd]. done.
  - rewrite !(delete_address_overflow j) by done. cbn [fst snd].
    by rewrite !(delete_address_overflow i) by done.
Qed.


(** X7: in a reachable table a delete of a stored id that is a 64-bit
    integer removes exactly one row, the one it returns, and keeps every
    other row at its place. *)
Theorem delete_removes_exactly_one_row (address_id : Z) (db : table) :
  reachable db ->
  address_id ∈ ids db ->
  Session.fits_int64 address_id = true ->
  exists before deleted after,
    db = before ++ deleted :: after /\
    id deleted = address_id /\
    delete_address address_id db = (Ok deleted, before ++ after).
Proof.
  intros Hreach Hin Hfits. pose proof (reachable_NoDup _ Hreach) as Hnd.
  unfold ids in Hin. apply list_elem_of_fmap in Hin as (deleted & -> & Hin).
  apply list_elem_of_split in Hin as (before & after & ->).
  exists before, deleted, after. split; [done|]. split; [done|].
  rewrite (delete_address_found _ _ deleted Hfits)
    by (apply first_row_stored; [done|apply elem_of_app; right; by left]).
  f_equal. unfold ids in Hnd. rewrite fmap_app, fmap_cons in Hnd.
  apply NoDup_app in Hnd as (_ & Hdisj & Hnd2).
  apply NoDup_cons in Hnd2 as [Hafter _].
  rewrite List.filter_app. simpl. rewrite Z.eqb_refl. simpl. f_equal.
  - apply filter_keeps_all. intros row Hrow.
    apply negb_true_iff, Z.eqb_neq. intros Heq.
    apply (Hdisj (id deleted)); [|by left].
    rewrite <- Heq. apply list_elem_of_fmap. by exists row.
  - apply filter_keeps_all. intros row Hrow.
    apply negb_true_iff, Z.eqb_neq. intros Heq.
    apply Hafter. rewrite <- Heq. apply list_elem_of_fmap. by exists row.
Qed.

(** The theorem above for the first of two created records. *)
Lemma delete_first_of_two_created :
  exists before deleted after,
    serve (POST quito) (serve (POST greenwich) []) = before ++ deleted :: after /\
    id deleted = 1 /\
    delete_address 1 (serve (POST quito) (serve (POST greenwich) [])) =
      (Ok deleted, before ++ after).
Proof.
  apply (delete_removes_exactly_one_row 1
           (serve (POST quito) (serve (POST greenwich) []))).
  - do 2 apply reachable_serve. apply reachable_empty.
  - left.
  - reflexivity.
Defined.

(* ================================================================== *)
(** * Further properties: failures *)
(* ================================================================== *)


Section GeopyFailures.

Import Geopy.

(** X9: over geopy the proximity query returns a list exactly when the
    table is empty, or geopy accepts the reference point and the
    coordinates of every stored record; in every other case it raises
    [ValueError].  On an empty table even a reference point geopy would
    reject is never looked at. *)
Theorem proximity_query_returns_iff_coordinates_accepted
    (inverse : point -> point -> float) (db : table)
    (ref_latitude ref_longitude max_km : float) :
  ((exists result,
      (get_addresses_within_distance (geodesic_kilometers inverse)
         ref_latitude ref_longitude max_km db).1 = Ok result) <->
   db = [] \/
   (is_Some (Point (Some ref_latitude, Some ref_longitude)) /\
    forall record, record ∈ db -> is_Some (Point (address_location record)))) /\
  ((get_addresses_within_distance (geodesic_kilometers inverse)
      ref_latitude ref_longitude max_km db).1 = Raise ValueError <->
   db ≠ [] /\
   (Point (Some ref_latitude, Some ref_longitude) = None \/
    exists record, record ∈ db /\ Point (address_location record) = None)).
Proof.
  unfold get_addresses_within_distance, Session.query_all. cbn [fst].
  assert (forall record,
            is_Some (geodesic_kilometers inverse (Some ref_latitude, Some ref_longitude)
                       (address_location record)) <->
            is_Some (Point (Some ref_latitude, Some ref_longitude)) /\
            is_Some (Point (address_location record))) as Hdef.
  { intros record. unfold geodesic_kilometers.
    destruct (Point (Some ref_latitude, Some ref_longitude)) as [p|],
      (Point (address_location record)) as [q|];
      (split; [intros Hs|intros [Hs1 Hs2]]);
      try (by eauto);
      first [ by apply is_Some_None in Hs
            | by apply is_Some_None in Hs1
            | by apply is_Some_None in Hs2 ]. }
  destruct (scan_cases (geodesic_kilometers inverse)
              (Some ref_latitude, Some ref_longitude) max_km db)
    as [[-> Hall]|[-> (bad & Hbad & Hnone)]].
  - assert (db = [] \/
            (is_Some (Point (Some ref_latitude, Some ref_longitude)) /\
             forall record, record ∈ db ->
               is_Some (Point (address_location record)))) as Hok.
    { destruct db as [|r db]; [by left|right]. split.
      - apply (Hdef r), Hall. by left.
      - intros record Hin. by apply (Hdef record), Hall. }
    split; [split; [done|eauto]|]. split; [done|].
    intros [Hne [Href|(record & Hin & Hrec)]].
    + destruct Hok as [->|[[? Hsome] _]]; congruence.
    + destruct Hok as [->|[_ Hrecs]]; [done|].
      destruct (Hrecs record Hin) as [? Hsome]. congruence.
  - assert (db ≠ []) as Hne by (intros ->; by apply elem_of_nil in Hbad).
    assert (~ (is_Some (Point (Some ref_latitude, Some ref_longitude)) /\
               is_Some (Point (address_location bad)))) as Hrej.
    { intros H%Hdef. rewrite Hnone in H. by destruct H. }
    split; [split|].
    + by intros [? [=]].
    + intros [->|[Href Hrecs]]; [done|]. destruct Hrej. eauto.
    + split; [|done]. intros _. split; [done|].
      destruct (Point (Some ref_latitude, Some ref_longitude)) eqn:Eref; [right|by left].
      exists bad. split; [done|].
      destruct (Point (address_location bad)) eqn:Ebad; [|done].
      destruct Hrej. eauto.
Qed.

End GeopyFailures.

(* ================================================================== *)
(** * Further properties: the radius and the order of requests *)
(* ================================================================== *)

Ltac compare_cases :=
  repeat match goal with
  | H : context [Z.compare ?x ?y] |- _ =>
      destruct (Z.compare_spec x y); simpl in H
  | H : context [Pos.compare ?x ?y] |- _ =>
      destruct (Pos.compare_spec x y); simpl in H
  | |- context [Z.compare ?x ?y] => destruct (Z.compare_spec x y); simpl
  | |- context [Pos.compare ?x ?y] => destruct (Pos.compare_spec x y); simpl
  end.

Lemma SFleb_trans (a b c : spec_float) :
  SFleb a b = true -> SFleb b c = true -> SFleb a c = true.
Proof.
  unfold SFleb, SFcompare.
  destruct a as [sa|sa| |sa ma ea], b as [sb|sb| |sb mb eb],
    c as [sc|sc| |sc mc ec];
    repeat match goal with s : bool |- _ => destruct s end;
    try done;
    change PosDef.Pos.compare_cont with Pos.compare_cont;
    change (Pos.compare_cont Eq) with Pos.compare;
    intros H1 H2; compare_cases; try done; try lia.
Qed.

(** [<=] on binary64 numbers is transitive. *)
Lemma float_leb_trans (x y z : float) :
  (x <=? y)%float = true -> (y <=? z)%float = true -> (x <=? z)%float = true.
Proof. rewrite !leb_spec. apply SFleb_trans. Qed.

Lemma Prim2SF_is_nan (x : float) : is_nan x = true -> Prim2SF x = S754_nan.
Proof.
  unfold is_nan. rewrite negb_true_iff, FloatAxioms.eqb_spec.
  unfold SFeqb, SFcompare.
  destruct (Prim2SF x) as [s|s| |s m e]; try done.
  - by destruct s.
  - change PosDef.Pos.compare_cont with Pos.compare_cont.
    change (Pos.compare_cont Eq) with Pos.compare.
    rewrite Z.compare_refl, Pos.compare_refl. by destruct s.
Qed.

(** Nothing is [<=] a NaN. *)
Lemma float_leb_nan_r (x y : float) :
  is_nan y = true -> (x <=? y)%float = false.
Proof.
  intros H%Prim2SF_is_nan. rewrite leb_spec, H. unfold SFleb, SFcompare.
  by destruct (Prim2SF x).
Qed.

Lemma filter_sublist_impl {A} (f g : A -> bool) (l : list A) :
  (forall x, x ∈ l -> f x = true -> g x = true) ->
  List.filter f l `sublist_of` List.filter g l.
Proof.
  induction l as [|x l IH]; simpl; intros H; [done|].
  assert (List.filter f l `sublist_of` List.filter g l) as Hrest
    by (apply IH; intros y Hy; apply H; by right).
  destruct (f x) eqn:Hf.
  - rewrite (H x) by (done || by left). by constructor.
  - destruct (g x); [by constructor|done].
Qed.

Lemma filter_none {A} (f : A -> bool) (l : list A) :
  (forall x, x ∈ l -> f x = false) -> List.filter f l = [].
Proof.
  induction l as [|x l IH]; simpl; intros H; [done|].
  rewrite (H x) by left. apply IH. intros y Hy. apply H. by right.
Qed.

Section RadiusAndOrder.

Variable geodesic_kilometers : location -> location -> option float.

(** The answer of the query, by what the distance function does on the
    table. *)
Lemma query_answer latitude longitude distance db :
  ((get_addresses_within_distance geodesic_kilometers
      latitude longitude distance db).1 =
     Ok (List.filter (within geodesic_kilometers (Some latitude, Some longitude) distance) db) /\
   forall address, address ∈ db ->
     is_Some (geodesic_kilometers (Some latitude, Some longitude) (address_location address))) \/
  ((get_addresses_within_distance geodesic_kilometers
      latitude longitude distance db).1 = Raise ValueError /\
   exists address, address ∈ db /\
     geodesic_kilometers (Some latitude, Some longitude) (address_location address) = None).
Proof.
  unfold get_addresses_within_distance, Session.query_all. cbn [fst].
  apply scan_cases.
Qed.

Lemma query_defined latitude longitude distance db :
  (forall address, address ∈ db ->
     is_Some (geodesic_kilometers (Some latitude, Some longitude) (address_location address))) ->
  (get_addresses_within_distance geodesic_kilometers
     latitude longitude distance db).1 =
    Ok (List.filter (within geodesic_kilometers (Some latitude, Some longitude) distance) db).
Proof.
  intros Hall. unfold get_addresses_within_distance, Session.query_all.
  cbn [fst]. by rewrite scan_defined.
Qed.

(** X10: widening the radius never loses a record: when [smaller <= larger]
    the two queries either both raise, or the result for the smaller
    radius is a subsequence of the result for the larger one.  Whether the
    query raises does not depend on the radius. *)
Theorem larger_radius_keeps_results
    (db : table) (latitude longitude smaller larger : float) :
  (smaller <=? larger)%float = true ->
  match (get_addresses_within_distance geodesic_kilometers
           latitude longitude smaller db).1,
        (get_addresses_within_distance geodesic_kilometers
           latitude longitude larger db).1 with
  | Ok near, Ok far => near `sublist_of` far
  | Raise e1, Raise e2 => e1 = e2
  | _, _ => False
  end.
Proof.
  intros Hle.
  destruct (query_answer latitude longitude smaller db)
    as [[-> Hall]|[-> (bad & Hbad & Hnone)]].
  - rewrite (query_defined latitude longitude larger db Hall).
    apply filter_sublist_impl. intros address _. unfold within.
    destruct (geodesic_kilometers (Some latitude, Some longitude)
                (address_location address)) as [km|]; [|done].
    intros Hkm. by apply (float_leb_trans km smaller larger).
  - destruct (query_answer latitude longitude larger db)
      as [[_ Hall]|[-> _]]; [|done].
    destruct (Hall bad Hbad) as [km Hkm]. congruence.
Qed.

(** X11: a radius that is NaN selects nothing: the query returns the empty
    list, unless the distance function raises. *)
Theorem nan_radius_selects_nothing
    (db : table) (latitude longitude distance : float) :
  is_nan distance = true ->
  match (get_addresses_within_distance geodesic_kilometers
           latitude longitude distance db).1 with
  | Ok result => result = []
  | Raise e => e = ValueError
  end.
Proof.
  intros Hnan.
  destruct (query_answer latitude longitude distance db)
    as [[-> _]|[-> _]]; [|done].
  apply filter_none. intros address _. unfold within.
  destruct (geodesic_kilometers (Some latitude, Some longitude)
              (address_location address)) as [km|]; [|done].
  by apply float_leb_nan_r.
Qed.

(** X12: deleting a record removes exactly it from later answers: on a
    table whose ids are 64-bit integers, when the query returns a list, the
    same query after a delete returns that list without the records of the
    deleted id, the rest in the same order. *)
Theorem delete_then_query_drops_the_record
    (address_id : Z) (db : table) (latitude longitude distance : float)
    (result : list Address) :
  int64_ids db ->
  (get_addresses_within_distance geodesic_kilometers
     latitude longitude distance db).1 = Ok result ->
  (get_addresses_within_distance geodesic_kilometers
     latitude longitude distance (delete_address address_id db).2).1 =
    Ok (List.filter (fun row => negb (id row =? address_id)) result).
Proof.
  intros Hids.
  destruct (query_answer latitude longitude distance db)
    as [[-> Hall]|[-> _]]; [|done].
  intros [= <-].
  assert ((delete_address address_id db).2 =
            List.filter (fun row => negb (id row =? address_id)) db) as ->.
  { destruct (Session.fits_int64 address_id) eqn:Hfits;
      [by apply delete_address_table|].
    rewrite (delete_address_overflow _ _ Hfits). cbn [snd].
    symmetry. apply filter_absent_id. intros Hin.
    unfold int64_ids in Hids. rewrite Forall_forall in Hids.
    specialize (Hids _ Hin). congruence. }
  rewrite query_defined.
  - f_equal. apply filter_commute.
  - intros address Hin. apply Hall.
    by apply list_elem_of_In, List.filter_In in Hin as [?%list_elem_of_In _].
Qed.

(** X13: a newly created record goes to the end of later answers: when the
    query returns a list on a table and the distance to the coordinates of
    the created record is defined, the same query after the creation
    returns that list, followed by the created record if its distance is
    within the radius. *)
Theorem create_then_query_appends_the_record
    (address : AddressCreate) (db : table)
    (ref_latitude ref_longitude max_km kilometers : float)
    (result : list Address) (created : Address) :
  (get_addresses_within_distance geodesic_kilometers
     ref_latitude ref_longitude max_km db).1 = Ok result ->
  (create_address address db).1 = Ok created ->
  geodesic_kilometers (Some ref_latitude, Some ref_longitude)
    (address_location created) = Some kilometers ->
  (get_addresses_within_distance geodesic_kilometers
     ref_latitude ref_longitude max_km (create_address address db).2).1 =
    Ok (if (kilometers <=? max_km)%float then result ++ [created] else result).
Proof.
  destruct (query_answer ref_latitude ref_longitude max_km db)
    as [[-> Hall]|[-> _]]; [|done].
  intros [= <-].
  destruct (Session.encodable (create_name address)) eqn:Henc;
    [|by rewrite (create_address_unencodable _ _ Henc)].
  rewrite (create_address_run _ _ Henc). cbn [fst snd].
  intros [= <-] Hnew.
  rewrite query_defined.
  - rewrite List.filter_app. cbn [List.filter]. unfold within at 2.
    rewrite Hnew.
    destruct (kilometers <=? max_km)%float; [done|by rewrite app_nil_r].
  - intros row [Hin|Hin]%elem_of_app; [by apply Hall|].
    apply list_elem_of_singleton in Hin as ->. rewrite Hnew. eauto.
Qed.

End RadiusAndOrder.

(** X10 on three records, for the radii 111 km and 555 km. *)
Lemma radius_111_inside_radius_555 :
  match (get_addresses_within_distance
           (Geopy.geodesic_kilometers taxicab_inverse)
           0 0 111 [one_north; five_north; ten_north]).1,
        (get_addresses_within_distance
           (Geopy.geodesic_kilometers taxicab_inverse)
           0 0 555 [one_north; five_north; ten_north]).1 with
  | Ok near, Ok far => near `sublist_of` far
  | Raise e1, Raise e2 => e1 = e2
  | _, _ => False
  end.
Proof.
  apply (larger_radius_keeps_results
           (Geopy.geodesic_kilometers taxicab_inverse)
           [one_north; five_north; ten_north] 0 0 111 555).
  reflexivity.
Defined.

(** X11 on three records. *)
Lemma nan_radius_on_three_records :
  match (get_addresses_within_distance
           (Geopy.geodesic_kilometers taxicab_inverse)
           0 0 nan [one_north; five_north; ten_north]).1 with
  | Ok result => result = []
  | Raise e => e = ValueError
  end.
Proof.
  apply (nan_radius_selects_nothing
           (Geopy.geodesic_kilometers taxicab_inverse)
           [one_north; five_north; ten_north] 0 0 nan).
  reflexivity.
Defined.

(** X12 on three records, deleting the second. *)
Lemma delete_second_then_query :
  (get_addresses_within_distance (Geopy.geodesic_kilometers taxicab_inverse)
     0 0 555 (delete_address 2 [one_north; five_north; ten_north]).2).1 =
    Ok (List.filter (fun row => negb (id row =? 2)) [one_north; five_north]).
Proof.
  apply (delete_then_query_drops_the_record
           (Geopy.geodesic_kilometers taxicab_inverse) 2
           [one_north; five_north; ten_north] 0 0 555 [one_north; five_north]).
  - repeat constructor.
  - reflexivity.
Defined.

(** X13 on a table of one record, creating a second one on the boundary. *)
Lemma create_second_then_query :
  (get_addresses_within_distance (Geopy.geodesic_kilometers taxicab_inverse)
     0 0 555 (create_address (mkAddressCreate "five" 5 0) [one_north]).2).1 =
    Ok (if (555 <=? 555)%float
        then [one_north] ++ [mkAddress 2 "five" (Some 5%float) (Some 0%float)]
        else [one_north]).
Proof.
  apply (create_then_query_appends_the_record
           (Geopy.geodesic_kilometers taxicab_inverse)
           (mkAddressCreate "five" 5 0) [one_north] 0 0 555 555
           [one_north] (mkAddress 2 "five" (Some 5%float) (Some 0%float))).
  - reflexivity.
  - reflexivity.
  - reflexivity.
Defined.




(** X15: an update changes later answers at most at the updated record:
    when the query returns a list both before and after an update, a
    record with another id is in the one list exactly when it is in the
    other. *)
Theorem update_then_query_keeps_other_records
    (geodesic_kilometers : location -> location -> option float)
    (address_id : Z) (address_update : AddressUpdate) (db : table)
    (ref_latitude ref_longitude max_km : float)
    (before after : list Address) (row : Address) :
  (get_addresses_within_distance geodesic_kilometers
     ref_latitude ref_longitude max_km db).1 = Ok before ->
  (get_addresses_within_distance geodesic_kilometers
     ref_latitude ref_longitude max_km
     (update_address address_id address_update db).2).1 = Ok after ->
  id row ≠ address_id ->
  row ∈ after <-> row ∈ before.
Proof.
  destruct (query_answer geodesic_kilometers ref_latitude ref_longitude max_km db)
    as [[-> _]|[-> _]]; [|done].
  destruct (query_answer geodesic_kilometers ref_latitude ref_longitude max_km
              (update_address address_id address_update db).2)
    as [[-> _]|[-> _]]; [|done].
  intros [= <-] [= <-] Hne.
  rewrite !elem_of_filter_within.
  by rewrite (elem_of_after_update _ address_update db row Hne).
Qed.

(** X15 on three records, moving the second one out of range. *)
Lemma update_second_then_query :
  one_north ∈ [one_north] <-> one_north ∈ [one_north; five_north].
Proof.
  apply (update_then_query_keeps_other_records
           (Geopy.geodesic_kilometers taxicab_inverse) 2
           (mkAddressUpdate "far" 50 0) [one_north; five_north; ten_north]
           0 0 555 [one_north; five_north] [one_north] one_north).
  - reflexivity.
  - reflexivity.
  - discriminate.
Defined.
